(** * pipedream_solver.nutils: sampler, root finders, boolean scan, Kalman update

    A shallow embedding of [src/pipedream_solver/nutils.py] and the proofs of
    the properties its specification states.

    Scalars.  The source computes on IEEE doubles.  Here a scalar is an
    element of an arbitrary real field [R : realFieldType] (a totally ordered
    field): the four operations, [abs] and the comparisons of the code are
    the field's.  Rounding, infinities and NaN are outside the model.
    Concrete runs are evaluated on MathComp's rationals [rat].

    Failures.  A Python exception is a constructor of the result type of the
    routine that can raise it; [raise ValueError(msg)] keeps its message. *)

From Stdlib Require Import String.
From HB Require Import structures.
From mathcomp Require Import ssreflect ssrfun ssrbool eqtype ssrnat seq path choice.
From mathcomp Require Import fintype bigop order ssralg ssrnum ssrint rat.
From mathcomp Require Import matrix mxalgebra.

Set Implicit Arguments.
Unset Strict Implicit.
Unset Printing Implicit Defensive.

Import Order.TTheory GRing.Theory Num.Theory.
Local Open Scope ring_scope.

(** ** Shared vocabulary *)

(** [range(n)] runs [n] times for a non-negative Python int and never for a
    negative one. *)
Definition range_len (n : int) : nat := if n is Posz k then k else 0%N.

(** The exceptions of the root finders: both are [ValueError]s, told apart
    by their message. *)
Inductive exn : Type := ValueError (msg : string).

Definition ZeroDerivative : exn := ValueError "Derivative is zero".
Definition NoSolutionFound : exn := ValueError "No solution found".
Definition NoZeroFound : exn := ValueError "No zero found".

(** The specification's [NoConvergence] covers the budget failure of either
    root finder. *)
Definition NoConvergence (e : exn) : Prop :=
  e = NoSolutionFound \/ e = NoZeroFound.

(** What one pass through a loop body does: go on with a new loop state, or
    leave the function. *)
Inductive step_result (S O : Type) : Type :=
  | Continue (s : S)
  | Stop (o : O).
Arguments Continue {S O} s.
Arguments Stop {S O} o.

(** ** The sampler, [interpolate_sample] *)

Section Sampler.

Variable R : realFieldType.
Variable m : nat.

(** A row of the table [fp]: a vector of [m] scalars. *)
Definition sample := 'rV[R]_m.

(** How a call ends: a row, an out-of-range row index, or the final
    [return result] reached with [result] never assigned. *)
Inductive sample_result : Type :=
  | Row (r : sample)
  | IndexError
  | UnboundResult.

(** Modelled from the spec: [np.searchsorted(xp, x)] (numpy is not part of
    the repository) is the insertion index of [x], the first index whose
    grid value is [>= x], and [n] when there is none. *)
Definition searchsorted (xp : seq R) (x : R) : nat :=
  find (fun y => x <= y) xp.

(** [fp[i]] for a non-negative index. *)
Definition fp_row (fp : seq sample) (i : nat) : sample_result :=
  if (i < size fp)%N then Row (nth 0 fp i) else IndexError.

(** [a * fp[i] + b * fp[j]], rows fetched left to right. *)
Definition blend (a : R) (ri : sample_result) (b : R) (rj : sample_result)
  : sample_result :=
  match ri, rj with
  | Row u, Row v => Row (a *: u + b *: v)
  | Row _, e => e
  | e, _ => e
  end.

(** The index [n - 1] is only formed when [0 < ix] and [n <= ix], so the
    truncated subtraction of [nat] never differs from Python's; likewise
    [ix - 1] is formed only when [0 < ix]. *)
Definition interpolate_sample (x : R) (xp : seq R) (fp : seq sample)
    (method : int) : sample_result :=
  let n := size xp in
  let ix := searchsorted xp x in
  if ix == 0%N then fp_row fp 0
  else if (n <= ix)%N then fp_row fp (n - 1)
  else
    let dx_0 := x - nth 0 xp (ix - 1) in
    let dx_1 := nth 0 xp ix - x in
    if method == 1 then
      let frac := dx_0 / (dx_0 + dx_1) in
      blend (1 - frac) (fp_row fp (ix - 1)) frac (fp_row fp ix)
    else if method == 0 then
      if `|dx_0| <= `|dx_1| then fp_row fp (ix - 1) else fp_row fp ix
    else UnboundResult.

Definition strictly_ascending (xp : seq R) : bool := sorted <%R xp.

End Sampler.

(** ** The boolean scan, [numba_any] *)

Section BooleanScan.

Variable R : realFieldType.

(** The body of [for i in range(n): if x[i]: return True], over the indices
    still to visit; a number is true when it is not zero. *)
Fixpoint any_loop (x : seq R) (idx : seq nat) : bool :=
  if idx is i :: idx' then
    if nth 0 x i != 0 then true else any_loop x idx'
  else false.

Definition numba_any (x : seq R) : bool :=
  let n := size x in
  any_loop x (iota 0 n).

End BooleanScan.

(** ** The root finders, [newton_raphson] and [bounded_newton_raphson] *)

Section RootFinders.

Variable R : realFieldType.

(** The bundle [args] is opaque to the solvers: any type will do. *)
Variable A : Type.

(** How a call of a root finder ends. *)
Inductive outcome : Type :=
  | Return (x : R)
  | Raise (e : exn).

(** The callbacks are pure functions of [(x, args)].  To speak of which of
    them a run evaluates, [newton_raphson] also yields the list of the
    evaluations it makes, in order. *)
Inductive call : Type :=
  | Call_f (x : R)
  | Call_df (x : R).

(** The loop state of [bounded_newton_raphson]: the locals that live across
    iterations. *)
Record bracket : Type := Bracket {
  cur_x : R;
  cur_lb : R;
  cur_ub : R;
  cur_dx : R;
  cur_fx : R;
  cur_dfx : R
}.

Section Loops.

Variables f df : R -> A -> R.
Variable args : A.
Variables atol rtol : R.

(** One pass through the body of the [for] loop of [newton_raphson]. *)
Definition newton_body (p0 : R) : seq call * step_result R outcome :=
  let fx := f p0 args in
  if fx == 0 then ([:: Call_f p0], Stop (Return p0))
  else
    let dfx := df p0 args in
    if dfx == 0 then ([:: Call_f p0; Call_df p0], Stop (Raise ZeroDerivative))
    else
      let p := p0 - fx / dfx in
      if `|p - p0| <= atol + rtol * `|p0| then
        ([:: Call_f p0; Call_df p0], Stop (Return p))
      else ([:: Call_f p0; Call_df p0], Continue p).

(** [for n in range(max_iter): ...] followed by the final [raise]. *)
Fixpoint newton_loop (iters : nat) (p0 : R) : seq call * outcome :=
  if iters is k.+1 then
    let: (calls, r) := newton_body p0 in
    match r with
    | Stop o => (calls, o)
    | Continue p =>
        let: (calls', o) := newton_loop k p in (calls ++ calls', o)
    end
  else ([::], Raise NoSolutionFound).

(** The two guards of step 2, on the current [fx], [dfx], [dx] and bounds. *)
Definition cond_0 (s : bracket) : bool :=
  ((cur_x s - cur_ub s) * cur_dfx s - cur_fx s)
  * ((cur_x s - cur_lb s) * cur_dfx s - cur_fx s) >= 0.

Definition cond_1 (s : bracket) : bool :=
  `|2 * cur_fx s| > `|cur_dx s * cur_dfx s|.

(** Steps 2 and 3 of [bounded_newton_raphson]: a bisection step when a guard
    trips, a Newton step otherwise.  Yields the new [(dx, x)]. *)
Definition bounded_move (s : bracket) : R * R :=
  if cond_0 s || cond_1 s then
    let dx := 2^-1 * (cur_ub s - cur_lb s) in
    (dx, cur_lb s + dx)
  else
    let dx := cur_fx s / cur_dfx s in
    (dx, cur_x s - dx).

(** One pass through the body of the [for] loop of
    [bounded_newton_raphson]: steps 2 to 5. *)
Definition bounded_body (s : bracket) : step_result bracket outcome :=
  let: (dx, x) := bounded_move s in
  if `|dx| < atol then Stop (Return x)
  else
    let fx := f x args in
    let dfx := df x args in
    if fx < 0 then Continue (Bracket x x (cur_ub s) dx fx dfx)
    else Continue (Bracket x (cur_lb s) x dx fx dfx).

Fixpoint bounded_loop (iters : nat) (s : bracket) : outcome :=
  if iters is k.+1 then
    match bounded_body s with
    | Stop o => o
    | Continue s' => bounded_loop k s'
    end
  else Raise NoZeroFound.

(** The loop states a run goes through, the one it starts from first: the
    state at the head of every iteration entered, and the state left by the
    last iteration when the budget runs out. *)
Fixpoint bounded_states (iters : nat) (s : bracket) : seq bracket :=
  if iters is k.+1 then
    match bounded_body s with
    | Stop _ => [:: s]
    | Continue s' => s :: bounded_states k s'
    end
  else [:: s].

(** Step 1 of [bounded_newton_raphson]: reorder the bounds, pull [x0] into
    them, set the first [dx], evaluate at [x]. *)
Definition bounded_init (x0 x_lb x_ub : R) : bracket :=
  let x := x0 in
  let f_lx := f x_lb args in
  let f_ux := f x_ub args in
  let: (x_lb, x_ub) := if f_lx > f_ux then (x_ub, x_lb) else (x_lb, x_ub) in
  let x := if (x < x_lb) || (x > x_ub) then (x_lb + x_ub) / 2 else x in
  let dx := `|x_ub - x_lb| in
  let fx := f x args in
  let dfx := df x args in
  Bracket x x_lb x_ub dx fx dfx.

(** The iterations of [newton_raphson] that elapse: [true] when [iters]
    passes from [p0] all go on to the next one, none returning on an exact
    zero, raising on a zero derivative or meeting the tolerance. *)
Fixpoint newton_elapses (iters : nat) (p0 : R) : bool :=
  if iters is k.+1 then
    let p := p0 - f p0 args / df p0 args in
    [&& f p0 args != 0, df p0 args != 0,
        ~~ (`|p - p0| <= atol + rtol * `|p0|) & newton_elapses k p]
  else true.

(** The same for [bounded_newton_raphson]: no pass meets [|dx| < atol]. *)
Fixpoint bounded_elapses (iters : nat) (s : bracket) : bool :=
  if iters is k.+1 then
    let: (dx, x) := bounded_move s in
    ~~ (`|dx| < atol)
    && bounded_elapses k
         (if f x args < 0
          then Bracket x x (cur_ub s) dx (f x args) (df x args)
          else Bracket x (cur_lb s) x dx (f x args) (df x args))
  else true.

End Loops.

Definition newton_raphson (f df : R -> A -> R) (x0 : R) (args : A)
    (max_iter : int) (atol rtol : R) : seq call * outcome :=
  let p0 := 1 * x0 in
  newton_loop f df args atol rtol (range_len max_iter) p0.

(** [rtol] is a parameter of the source function too. *)
Definition bounded_newton_raphson (f df : R -> A -> R) (x0 x_lb x_ub : R)
    (args : A) (max_iter : int) (atol rtol : R) : outcome :=
  bounded_loop f df args atol (range_len max_iter)
    (bounded_init f df args x0 x_lb x_ub).




End RootFinders.

(** ** The Kalman update, [_kalman_semi_implicit] *)

Section Kalman.

Variable F : fieldType.


(** [M] states, [p] observations, [q] inputs. *)
Variables M p q : nat.



(** The reference formulas of the specification, step by step; [A_1^{-T}]
    is the inverse of the transpose of [A_1]. *)
Section Reference.

Variables (Z_next : 'cV[F]_p) (P_prev A_1 A_2 : 'M[F]_M) (b : 'cV[F]_M).
Variables (H : 'M[F]_(p, M)) (C : 'M[F]_(M, q)).
Variables (Qcov : 'M[F]_q) (Rcov : 'M[F]_p).








End Reference.

End Kalman.

(** Symmetric positive semi-definite matrices over a real field. *)
Section Definiteness.

Variable R : realFieldType.
Variable n : nat.




End Definiteness.

(** ** Concrete inputs, over the rationals *)

(** [f(x) = x^2 - 2] and its derivative; [args] is the empty bundle. *)
Definition sq2 (x : rat) (_ : unit) : rat := x * x - 2.
Definition dsq2 (x : rat) (_ : unit) : rat := 2 * x.

(** A derivative that is zero everywhere. *)
Definition flat (x : rat) (_ : unit) : rat := 0.

Definition tol : rat := 1 / 100%:R.

(** The value a call returns, if it returns one. *)
Definition returned (o : outcome rat) : option rat :=
  if o is Return v then Some v else None.

(** A three-point grid with a one-column table, and a grid that repeats an
    abscissa. *)
Definition grid : seq rat := [:: 0; 1; 2].
Definition table : seq (sample rat 1) :=
  [:: const_mx 0; const_mx 10%:R; const_mx 20%:R].


(** ** Further vocabulary and inputs for the properties of the last part *)

Section MoreVocabulary.

Variable R : realFieldType.


(** Which callback an entry of the call log evaluates. *)
Definition is_call_f (c : call R) : bool :=
  if c is Call_f _ then true else false.

Definition is_call_df (c : call R) : bool :=
  if c is Call_df _ then true else false.




End MoreVocabulary.

(** [f(x) = 2 - x^2], decreasing on [[0, 2]], and its derivative. *)
Definition neg_sq2 (x : rat) (_ : unit) : rat := 2 - x * x.
Definition dneg_sq2 (x : rat) (_ : unit) : rat := - (2 * x).

(** A two-column table on the grid [[0, 1, 2]]. *)
Definition table2 : seq (sample rat 2) :=
  [:: const_mx 0; const_mx 10%:R; const_mx 20%:R].

Section SamplerFacts.

Variable R : realFieldType.
Variable m : nat.
Implicit Types (xp : seq R) (fp : seq (sample R m)) (x : R).

Lemma searchsorted_le_size xp x : (searchsorted xp x <= size xp)%N.
Proof. exact: find_size. Qed.



Lemma searchsorted_grid xp i :
  strictly_ascending xp -> (i < size xp)%N ->
  searchsorted xp (nth 0 xp i) = i.
Proof.
move=> xp_sorted i_lt; rewrite /searchsorted.
set a := fun y => _; have ai : a (nth 0 xp i) by rewrite /a lexx.
have has_a : has a xp by apply/hasP; exists (nth 0 xp i); rewrite ?mem_nth.
have lt_tr : transitive (<%R : rel R) by apply: lt_trans.
apply/eqP; rewrite eqn_leq; apply/andP; split.
  by rewrite leqNgt; apply/negP => /(before_find 0); rewrite ai.
rewrite leqNgt; apply/negP => find_lt.
have := nth_find 0 has_a; rewrite /a leNgt.
by rewrite (sorted_ltn_nth lt_tr 0 xp_sorted) // inE // (ltn_trans find_lt).
Qed.

Lemma fp_row_in fp i : (i < size fp)%N -> fp_row fp i = Row (nth 0 fp i).
Proof. by rewrite /fp_row => ->. Qed.



(** C10: with a [method] that is neither 0 nor 1 (and an [n]-row table,
    [n >= 1]), the clamped row is still returned when the insertion index
    is 0 or is [n] or more, and when it is strictly inside the grid the
    final [return result] is reached with [result] unassigned: no row,
    blended or neighbouring, is returned. *)
Theorem interpolate_sample_invalid_method x xp fp (method : int) :
  method != 0 -> method != 1 -> size fp = size xp -> (0 < size xp)%N ->
  let n := size xp in
  let ix := searchsorted xp x in
  (ix = 0%N -> interpolate_sample x xp fp method = Row (nth 0 fp 0))
  /\ ((n <= ix)%N ->
      interpolate_sample x xp fp method = Row (nth 0 fp (n - 1)))
  /\ ((0 < ix < n)%N ->
      interpolate_sample x xp fp method = UnboundResult R m
      /\ forall r, interpolate_sample x xp fp method <> Row r).
Proof.
move=> /negbTE m0 /negbTE m1 size_fp n_gt0 n ix; rewrite /interpolate_sample.
rewrite -/ix -/n; split; last split.
- by move=> ->; rewrite fp_row_in ?size_fp.
- move=> n_le; rewrite n_le; have -> : (ix == 0%N) = false.
    by rewrite eqn0Ngt (leq_trans n_gt0).
  by rewrite fp_row_in // size_fp subn1 prednK.
- case/andP=> ix_gt0 ix_lt; rewrite eqn0Ngt ix_gt0 leqNgt ix_lt /= m0 m1.
  by split.
Qed.

End SamplerFacts.

Section BooleanScanFacts.

Variable R : realFieldType.
Implicit Type x : seq R.

Lemma any_loop_has x idx :
  any_loop x idx = has (fun i => nth 0 x i != 0) idx.
Proof. by elim: idx => [|i idx IH] //=; rewrite -IH; case: ifP. Qed.

(** C8: [numba_any x] is true exactly when some element of [x] is not zero,
    as the standard [any] reduction ([has]); it is false on the empty array
    and on every all-zero array, and true on [[0, 0, 1]]. *)
Theorem numba_any_correct x :
  (numba_any x <-> exists2 i, (i < size x)%N & nth 0 x i != 0)
  /\ numba_any x = has (fun v => v != 0) x
  /\ numba_any ([::] : seq R) = false
  /\ (forall k, numba_any (nseq k (0 : R)) = false)
  /\ numba_any [:: 0; 0; 1 : R] = true.
Proof.
have any_has (y : seq R) : numba_any y = has (fun v => v != 0) y.
  have -> : numba_any y = any_loop y (iota 0 (size y)) by [].
  rewrite any_loop_has -[in RHS](mkseq_nth 0 y) has_map.
  exact: eq_has.
split; [|split; [|split; [|split]]].
- rewrite any_has; split=> [/(has_nthP 0) //|[i i_lt xi_neq0]].
  by apply/(has_nthP 0); exists i.
- exact: any_has.
- by [].
- move=> k; rewrite any_has; apply/negbTE/hasPn => v.
  by rewrite mem_nseq => /andP [_ /eqP ->]; rewrite negbK.
- by rewrite any_has /= eqxx /= oner_neq0.
Qed.

End BooleanScanFacts.

Section BracketFacts.

Variable R : realFieldType.
Implicit Types a b x : R.








Variable A : Type.
Variables f df : R -> A -> R.
Variable args : A.
Variable atol : R.
Implicit Type s : bracket R.








End BracketFacts.

Section RootFinderFacts.

Variable R : realFieldType.
Variable A : Type.
Implicit Types (f df : R -> A -> R) (args : A) (x_lb x_ub atol rtol : R).
Implicit Types (max_iter : int) (s : bracket R).

Lemma newton_elapses_loop f df args atol rtol k p0 :
  newton_elapses f df args atol rtol k p0 ->
  (newton_loop f df args atol rtol k p0).2 = Raise R NoSolutionFound.
Proof.
elim: k p0 => [|k IH] p0 //= /and4P [/negbTE f0 /negbTE df0 /negbTE tol].
move/IH; rewrite /newton_body f0 df0 tol.
by case: (newton_loop _ _ _ _ _ k _) => calls o /= ->.
Qed.

Lemma bounded_elapses_loop f df args atol k s :
  bounded_elapses f df args atol k s ->
  bounded_loop f df args atol k s = Raise R NoZeroFound.
Proof.
elim: k s => [|k IH] s //=; rewrite /bounded_body.
case: (bounded_move s) => dx x /andP [/negbTE -> /IH].
by case: ifP.
Qed.

(** The budget failures come from an exhausted budget only. *)
Lemma newton_loop_elapses f df args atol rtol k p0 :
  (newton_loop f df args atol rtol k p0).2 = Raise R NoSolutionFound ->
  newton_elapses f df args atol rtol k p0.
Proof.
elim: k p0 => [|k IH] p0 //=; rewrite /newton_body.
case: (f p0 args == 0) => //=; case: (df p0 args == 0) => //=.
case: (`|_| <= _) => //=.
by case E: (newton_loop _ _ _ _ _ k _) (IH (p0 - f p0 args / df p0 args)).
Qed.

Lemma bounded_loop_elapses f df args atol k s :
  bounded_loop f df args atol k s = Raise R NoZeroFound ->
  bounded_elapses f df args atol k s.
Proof.
elim: k s => [|k IH] s //=; rewrite /bounded_body.
case: (bounded_move s) => dx x; case: (`|dx| < atol) => //=.
by case: ifP => _ /IH.
Qed.


(** C5, as amended: at an iteration of [newton_raphson] from [p0], an exact
    zero of [f] returns [p0] after the single evaluation [f(p0, args)], [df]
    not being evaluated; otherwise an exact zero of [df] raises the
    zero-derivative error.  So with [df] identically zero, [f(x0, args) != 0]
    and [max_iter >= 1], the call fails that way in its first iteration. *)
Theorem newton_raphson_zero_checks f df args atol rtol :
  (forall k p0, f p0 args = 0 ->
     newton_loop f df args atol rtol k.+1 p0 = ([:: Call_f p0], Return p0))
  /\ (forall k p0, f p0 args != 0 -> df p0 args = 0 ->
        newton_loop f df args atol rtol k.+1 p0
          = ([:: Call_f p0; Call_df p0], Raise R ZeroDerivative))
  /\ (forall x0 max_iter,
        (forall x, df x args = 0) -> f x0 args != 0 -> 0 < max_iter ->
        newton_raphson f df x0 args max_iter atol rtol
          = ([:: Call_f x0; Call_df x0], Raise R ZeroDerivative)).
Proof.
have zero_df k p0 : f p0 args != 0 -> df p0 args = 0 ->
    newton_loop f df args atol rtol k.+1 p0
      = ([:: Call_f p0; Call_df p0], Raise R ZeroDerivative).
  by move=> /negbTE f0 df0; rewrite /= /newton_body f0 df0 eqxx.
split; last split => //.
  by move=> k p0 f0; rewrite /= /newton_body f0 eqxx.
move=> x0 [[|k]|k] // df0 f0 _.
by rewrite /newton_raphson mul1r /range_len zero_df.
Qed.

(** C6: when [f(a, args) > f(b, args)], the call with [x_lb = a, x_ub = b]
    and the call with [x_lb = b, x_ub = a] end the same way, with the same
    value or the same failure: step 1a leaves both with the same pair of
    bounds, ordered so that [f(x_lb) <= f(x_ub)]. *)
Theorem bounded_newton_raphson_reversed
    f df x0 (a b : R) args max_iter atol rtol :
  f b args < f a args ->
  [/\ bounded_newton_raphson f df x0 a b args max_iter atol rtol
        = bounded_newton_raphson f df x0 b a args max_iter atol rtol,
      bounded_init f df args x0 a b = bounded_init f df args x0 b a
    & let s := bounded_init f df args x0 a b in
      [/\ cur_lb s = b, cur_ub s = a
        & f (cur_lb s) args <= f (cur_ub s) args]].
Proof.
move=> fab.
have same : bounded_init f df args x0 a b = bounded_init f df args x0 b a.
  by rewrite /bounded_init fab (lt_gtF fab).
split=> //; first by rewrite /bounded_newton_raphson same.
by rewrite /bounded_init fab /=; split=> //; apply: ltW.
Qed.

(** C7: when all [max_iter] iterations elapse, [newton_raphson] meeting
    neither an exact zero nor its tolerance (nor a zero derivative) and
    [bounded_newton_raphson] never meeting [|dx| < atol], the call ends in
    the budget failure of the routine and in no returned value. *)
Theorem budget_exhausted_no_convergence
    f df x0 x_lb x_ub args max_iter atol rtol :
  (newton_elapses f df args atol rtol (range_len max_iter) (1 * x0) ->
   [/\ (newton_raphson f df x0 args max_iter atol rtol).2
         = Raise R NoSolutionFound,
       NoConvergence NoSolutionFound
     & forall v,
         (newton_raphson f df x0 args max_iter atol rtol).2 <> Return v])
  /\ (bounded_elapses f df args atol (range_len max_iter)
        (bounded_init f df args x0 x_lb x_ub) ->
      [/\ bounded_newton_raphson f df x0 x_lb x_ub args max_iter atol rtol
            = Raise R NoZeroFound,
          NoConvergence NoZeroFound
        & forall v,
            bounded_newton_raphson f df x0 x_lb x_ub args max_iter atol rtol
              <> Return v]).
Proof.
split.
  move/newton_elapses_loop => fails; rewrite /newton_raphson fails.
  by split=> //; left.
move/bounded_elapses_loop => fails; rewrite /bounded_newton_raphson fails.
by split=> //; right.
Qed.

(** C9: [bounded_newton_raphson] never reads [rtol]: two calls that differ
    in [rtol] alone end the same way. *)
Theorem bounded_newton_raphson_rtol_unused
    f df x0 x_lb x_ub args max_iter atol rtol rtol' :
  bounded_newton_raphson f df x0 x_lb x_ub args max_iter atol rtol
  = bounded_newton_raphson f df x0 x_lb x_ub args max_iter atol rtol'.
Proof. by []. Qed.

End RootFinderFacts.

Section KalmanFacts.

Variable F : fieldType.
Variables M p q : nat.


End KalmanFacts.

Section DefinitenessFacts.

Variable R : realFieldType.
Variable n : nat.
Implicit Types (P S T : 'M[R]_n) (v w : 'cV[R]_n).













End DefinitenessFacts.

(** ** Runs on concrete inputs *)

Section Runs.

(** Both root finders reach [577/408] for [sqrt 2] from [x0 = 1] within the
    tolerance [1/100]. *)
Example newton_raphson_sq2 :
  returned (newton_raphson sq2 dsq2 1 tt 50 tol 0).2
  == Some (577%:R / 408%:R).
Proof. by vm_compute. Qed.


Example bounded_newton_raphson_sq2_reversed :
  returned (bounded_newton_raphson sq2 dsq2 1 2 0 tt 50 tol 0)
  == Some (577%:R / 408%:R).
Proof. by vm_compute. Qed.




(** [method = 2] at [x = 1/2], strictly inside the grid [[0, 1, 2]]. *)
Lemma interpolate_sample_invalid_method_witness :
  interpolate_sample (1 / 2%:R) grid table 2 = UnboundResult rat 1.
Proof.
have [_ [_ inside]] :=
  @interpolate_sample_invalid_method rat 1 (1 / 2%:R) grid table 2
    isT isT erefl isT.
by case: inside.
Defined.

(** C5, counterexample: with [max_iter = 0] there is no first iteration;
    a zero derivative and [f(x0, args) != 0] end in the budget failure, not
    in the zero-derivative one. *)
Lemma newton_raphson_no_iteration :
  [/\ forall x, flat x tt = 0,
      sq2 1 tt != 0,
      newton_raphson sq2 flat 1 tt 0 tol 0 = ([::], Raise rat NoSolutionFound)
    & (newton_raphson sq2 flat 1 tt 0 tol 0).2 <> Raise rat ZeroDerivative].
Proof. by []. Qed.

(** [f = x^2 - 2] with a derivative that is zero everywhere, [x0 = 1]. *)
Lemma newton_raphson_zero_checks_witness :
  newton_raphson sq2 flat 1 tt 50 tol 0
  = ([:: Call_f 1; Call_df 1], Raise rat ZeroDerivative).
Proof.
have [_ [_ first_pass]] :=
  @newton_raphson_zero_checks rat unit sq2 flat tt tol 0.
exact: (first_pass 1 50 (fun=> erefl) isT isT).
Defined.

(** The bracket [[2, 0]] against [[0, 2]] for [f = x^2 - 2]. *)
Lemma bounded_newton_raphson_reversed_witness :
  bounded_newton_raphson sq2 dsq2 1 2 0 tt 50 tol 0
  = bounded_newton_raphson sq2 dsq2 1 0 2 tt 50 tol 0.
Proof.
by have [] := @bounded_newton_raphson_reversed _ _ sq2 dsq2 1 2 0 tt 50 tol 0 isT.
Defined.

(** Two iterations from [x0 = 1] do not reach the tolerance [1/100]. *)
Lemma budget_exhausted_no_convergence_witness :
  (newton_raphson sq2 dsq2 1 tt 2 tol 0).2 = Raise rat NoSolutionFound
  /\ bounded_newton_raphson sq2 dsq2 1 0 2 tt 2 tol 0
     = Raise rat NoZeroFound.
Proof.
have [newton bounded] :=
  @budget_exhausted_no_convergence rat unit sq2 dsq2 1 0 2 tt 2 tol 0.
have [newton_fails _ _] := newton isT.
have [bounded_fails _ _] := bounded isT.
by split.
Defined.



End Runs.

(** ** Further properties of the sampler *)

Section SamplerMore.

Variable R : realFieldType.
Variable m : nat.
Implicit Types (xp : seq R) (fp : seq (sample R m)) (x : R).

Lemma interior_rows xp fp x :
  size fp = size xp ->
  let ix := searchsorted xp x in
  (0 < ix < size xp)%N ->
  fp_row fp (ix - 1) = Row (nth 0 fp (ix - 1))
  /\ fp_row fp ix = Row (nth 0 fp ix).
Proof.
move=> size_fp ix /andP [ix_gt0 ix_lt].
rewrite !fp_row_in ?size_fp // subn1.
by rewrite (leq_ltn_trans (leq_pred _)).
Qed.

Lemma interior_branch xp fp x method :
  let ix := searchsorted xp x in
  (0 < ix < size xp)%N ->
  interpolate_sample x xp fp method
  = let dx_0 := x - nth 0 xp (ix - 1) in
    let dx_1 := nth 0 xp ix - x in
    if method == 1 then
      blend (1 - dx_0 / (dx_0 + dx_1)) (fp_row fp (ix - 1))
            (dx_0 / (dx_0 + dx_1)) (fp_row fp ix)
    else if method == 0 then
      if `|dx_0| <= `|dx_1| then fp_row fp (ix - 1) else fp_row fp ix
    else UnboundResult R m.
Proof.
move=> ix /andP [ix_gt0 ix_lt]; rewrite /interpolate_sample -/ix.
by rewrite eqn0Ngt ix_gt0 leqNgt ix_lt.
Qed.





(** X3: on a strictly ascending grid, nearest-neighbour sampling at a grid
    point [xp[i]] returns [fp[i]]. *)
Theorem interpolate_sample_nearest_grid xp fp i :
  strictly_ascending xp -> size fp = size xp -> (i < size xp)%N ->
  interpolate_sample (nth 0 xp i) xp fp 0 = Row (nth 0 fp i).
Proof.
move=> xp_strict size_fp i_lt.
have ix_i := searchsorted_grid xp_strict i_lt.
case: i i_lt ix_i => [|i] i_lt ix_i.
  by rewrite /interpolate_sample ix_i /= fp_row_in ?size_fp.
have inside : let ix := searchsorted xp (nth 0 xp i.+1) in
    (0 < ix < size xp)%N by rewrite /= ix_i.
have lt_tr : transitive (<%R : rel R) by apply: lt_trans.
have step : nth 0 xp i < nth 0 xp i.+1.
  by apply: (sorted_ltn_nth lt_tr 0 xp_strict); rewrite ?inE // ltnW.
rewrite interior_branch //= ix_i subn1 /= subrr normr0 normr_le0.
by rewrite subr_eq0 gt_eqF // fp_row_in ?size_fp.
Qed.

(** X4: with a valid method (0 or 1) and an [n]-row table on a grid of
    [n >= 1] points, sorted or not, every call returns a row: no index
    error, no unassigned result, for any [x]. *)
Theorem interpolate_sample_returns_row x xp fp (method : int) :
  (method == 0) || (method == 1) ->
  size fp = size xp -> (0 < size xp)%N ->
  exists r, interpolate_sample x xp fp method = Row r.
Proof.
move=> valid size_fp n_gt0.
case: (posnP (searchsorted xp x)) => [ix0|ix_gt0].
  by exists (nth 0 fp 0); rewrite /interpolate_sample ix0 /= fp_row_in ?size_fp.
case: (leqP (size xp) (searchsorted xp x)) => [n_le|ix_lt].
  exists (nth 0 fp (size xp - 1)); rewrite /interpolate_sample.
  by rewrite eqn0Ngt ix_gt0 n_le /= fp_row_in // size_fp subn1 prednK.
have inside : (0 < searchsorted xp x < size xp)%N by rewrite ix_gt0.
have [prev_row next_row] := interior_rows size_fp inside.
rewrite interior_branch //= prev_row next_row.
case/orP: valid => /eqP -> /=; first by case: ifP => _; eexists.
by eexists.
Qed.

End SamplerMore.

(** ** Further properties of the boolean scan *)

Section BooleanScanMore.

Variable R : realFieldType.

Lemma numba_any_has (x : seq R) : numba_any x = has (fun v => v != 0) x.
Proof.
have -> : numba_any x = any_loop x (iota 0 (size x)) by [].
rewrite any_loop_has -[in RHS](mkseq_nth 0 x) has_map.
exact: eq_has.
Qed.

(** X5: scanning a concatenation is the disjunction of the scans of its
    parts; in particular leading or trailing zeros do not change the
    answer. *)
Theorem numba_any_cat (x y : seq R) :
  numba_any (x ++ y) = numba_any x || numba_any y.
Proof. by rewrite !numba_any_has has_cat. Qed.

End BooleanScanMore.

(** ** Further properties of [newton_raphson] *)

Section NewtonMore.

Variable R : realFieldType.
Variable A : Type.
Implicit Types (f df : R -> A -> R) (args : A) (atol rtol : R).
Implicit Types (max_iter : int).

(** X6: a value returned by [newton_raphson] is an exact zero of [f], or
    the Newton update [p - f(p)/df(p)] of an iterate [p] with a non-zero
    derivative from which it differs by at most [atol + rtol * |p|]. *)
Theorem newton_raphson_returned f df (x0 : R) args max_iter atol rtol v :
  (newton_raphson f df x0 args max_iter atol rtol).2 = Return v ->
  f v args = 0
  \/ exists p,
       [/\ f p args != 0, df p args != 0, v = p - f p args / df p args
         & `|v - p| <= atol + rtol * `|p|].
Proof.
rewrite /newton_raphson.
elim: (range_len max_iter) (1 * x0) => [|k IH] p0 //=; rewrite /newton_body.
case: (eqVneq (f p0 args) 0) => [f0|f_neq0] /=; first by case=> <-; left.
case: (eqVneq (df p0 args) 0) => [//|df_neq0] /=.
case: ifP => [close|_] /=; first by case=> <-; right; exists p0.
by case E: (newton_loop _ _ _ _ _ k _) (IH (p0 - f p0 args / df p0 args)).
Qed.

(** X7: a call of [newton_raphson] evaluates [f] at most [max_iter] times
    (never, when [max_iter <= 0]), and [df] as often as [f] or once less. *)
Theorem newton_raphson_evaluations f df (x0 : R) args max_iter atol rtol :
  let calls := (newton_raphson f df x0 args max_iter atol rtol).1 in
  [/\ (count (@is_call_f R) calls <= range_len max_iter)%N,
      (count (@is_call_df R) calls <= count (@is_call_f R) calls)%N
    & (count (@is_call_f R) calls <= (count (@is_call_df R) calls).+1)%N].
Proof.
rewrite /newton_raphson.
elim: (range_len max_iter) (1 * x0) => [|k IH] p0 //=; rewrite /newton_body.
case: (f p0 args == 0) => //=; case: (df p0 args == 0) => //=.
case: ifP => _ //=.
case E: (newton_loop _ _ _ _ _ k _) (IH (p0 - f p0 args / df p0 args)).
by move=> /= [le_k df_le f_le]; rewrite !add0n !add1n !ltnS.
Qed.

(** X8: the only failures of [newton_raphson] are the zero-derivative error
    and the exhausted budget. *)
Theorem newton_raphson_failures f df (x0 : R) args max_iter atol rtol e :
  (newton_raphson f df x0 args max_iter atol rtol).2 = Raise R e ->
  e = ZeroDerivative \/ e = NoSolutionFound.
Proof.
rewrite /newton_raphson.
elim: (range_len max_iter) (1 * x0) => [|k IH] p0 /=.
  by case=> <-; right.
rewrite /newton_body.
case: (f p0 args == 0) => //=; case: (df p0 args == 0) => /=.
  by case=> <-; left.
case: ifP => _ //=.
by case E: (newton_loop _ _ _ _ _ k _) (IH (p0 - f p0 args / df p0 args)).
Qed.

End NewtonMore.

Section NewtonAffine.

Variable R : realFieldType.


End NewtonAffine.

(** ** Further properties of [bounded_newton_raphson] *)

Section BoundedMore.

Variable R : realFieldType.
Variable A : Type.
Implicit Types (f df : R -> A -> R) (args : A) (atol rtol a b : R).
Implicit Types (max_iter : int) (s : bracket R).







(** X12: every loop state of a run carries the values of [f] and [df] at
    its current [x]: the guards are always decided on up-to-date values. *)
Theorem bounded_newton_raphson_cache
    f df (x0 x_lb x_ub : R) args max_iter atol :
  all (fun s => (cur_fx s == f (cur_x s) args)
                && (cur_dfx s == df (cur_x s) args))
    (bounded_states f df args atol (range_len max_iter)
       (bounded_init f df args x0 x_lb x_ub)).
Proof.
have : (cur_fx (bounded_init f df args x0 x_lb x_ub)
          == f (cur_x (bounded_init f df args x0 x_lb x_ub)) args)
       && (cur_dfx (bounded_init f df args x0 x_lb x_ub)
          == df (cur_x (bounded_init f df args x0 x_lb x_ub)) args).
  by rewrite /bounded_init; case: ifP => _ /=; rewrite !eqxx.
elim: (range_len max_iter) (bounded_init _ _ _ _ _ _) => [|k IH] s s_ok /=.
  by rewrite s_ok.
case E: (bounded_body f df args atol s) => [s'|o] /=; last by rewrite s_ok.
rewrite s_ok /=; apply: IH; move: E; rewrite /bounded_body.
case: (bounded_move s) => dx x; case: ifP => // _.
by case: ifP => _ [<-] /=; rewrite !eqxx.
Qed.


(** X14: for a bracket passed in increasing order on which [f] decreases,
    [f(x_ub) < f(x_lb)], the initial guess [x0] is always discarded for the
    midpoint: the outcome does not depend on [x0]. *)
Theorem bounded_newton_raphson_guess_ignored
    f df (x0 x0' x_lb x_ub : R) args max_iter atol rtol :
  x_lb < x_ub -> f x_ub args < f x_lb args ->
  bounded_newton_raphson f df x0 x_lb x_ub args max_iter atol rtol
  = bounded_newton_raphson f df x0' x_lb x_ub args max_iter atol rtol.
Proof.
move=> ordered decreasing; rewrite /bounded_newton_raphson; congr bounded_loop.
have outside x : (x < x_ub) || (x_lb < x).
  by case: (ltP x x_ub) => //= /(lt_le_trans ordered).
by rewrite /bounded_init decreasing /= !outside.
Qed.




End BoundedMore.

(** ** Further properties of the Kalman update *)

Section KalmanMore.

Variable F : fieldType.
Variables M p q : nat.
Variables (Z_next : 'cV[F]_p) (P_x_k_k A_1 A_2 : 'M[F]_M) (b : 'cV[F]_M).
Variables (H : 'M[F]_(p, M)) (C : 'M[F]_(M, q)).
Variables (Qcov : 'M[F]_q) (Rcov : 'M[F]_p).




End KalmanMore.

Section KalmanDefiniteness.

Variable R : realFieldType.








Section Update.

Variables M p : nat.
Variables (P : 'M[R]_M) (H : 'M[R]_(p, M)) (Rcov : 'M[R]_p).

Local Notation S := (H *m P *m H^T + Rcov).
Local Notation L := (P *m H^T *m invmx S).




End Update.

End KalmanDefiniteness.

Section KalmanCovariance.

Variable R : realFieldType.
Variables M p q : nat.
Variables (Z_next : 'cV[R]_p) (P_x_k_k A_1 A_2 : 'M[R]_M) (b : 'cV[R]_M).
Variables (H : 'M[R]_(p, M)) (C : 'M[R]_(M, q)).
Variables (Qcov : 'M[R]_q) (Rcov : 'M[R]_p).





End KalmanCovariance.

(** ** Runs of the further properties on concrete inputs *)

Section MoreRuns.

Lemma returned_some (o : outcome rat) (v : rat) :
  returned o == Some v -> o = Return v.
Proof. by case: o => [w|e] //= /eqP [->]. Qed.

Lemma raised_some (R : realFieldType) (o : outcome R) :
  is_true (if o is Raise _ then true else false) -> exists e, o = Raise R e.
Proof. by case: o => [v|e] // _; exists e. Qed.








Lemma interpolate_sample_nearest_grid_witness :
  interpolate_sample (nth 0 grid 1) grid table2 0 = Row (nth 0 table2 1).
Proof.
exact: (@interpolate_sample_nearest_grid rat 2 grid table2 1 isT erefl isT).
Defined.

Lemma interpolate_sample_returns_row_witness :
  exists r, interpolate_sample (3%:R / 2%:R) grid table2 0 = Row r.
Proof.
exact: (@interpolate_sample_returns_row rat 2 (3%:R / 2%:R) grid table2 0
          isT erefl isT).
Defined.

Lemma newton_raphson_returned_witness :
  sq2 (577%:R / 408%:R) tt = 0
  \/ exists p,
       [/\ sq2 p tt != 0, dsq2 p tt != 0,
           577%:R / 408%:R = p - sq2 p tt / dsq2 p tt
         & `|577%:R / 408%:R - p| <= tol + 0 * `|p|].
Proof.
exact: (newton_raphson_returned (returned_some newton_raphson_sq2)).
Defined.

(** With a derivative that is zero everywhere the call fails. *)
Lemma newton_raphson_failures_witness :
  exists e,
    (newton_raphson sq2 flat 1 tt 50 tol 0).2 = Raise rat e
    /\ (e = ZeroDerivative \/ e = NoSolutionFound).
Proof.
have fails : is_true (if (newton_raphson sq2 flat 1 tt 50 tol 0).2
                        is Raise _ then true else false) by vm_compute.
have [e E] :=
  @raised_some _ (newton_raphson sq2 flat 1 tt 50 tol 0).2 fails.
by exists e; split; [exact: E | exact: (newton_raphson_failures E)].
Defined.





Lemma bounded_newton_raphson_guess_ignored_witness :
  bounded_newton_raphson neg_sq2 dneg_sq2 0 0 2 tt 50 tol 0
  = bounded_newton_raphson neg_sq2 dneg_sq2 2 0 2 tt 50 tol 0.
Proof.
exact: (@bounded_newton_raphson_guess_ignored rat unit neg_sq2 dneg_sq2
          0 2 0 2 tt 50 tol 0 isT isT).
Defined.









End MoreRuns.
